(** * Sapir & Waxman (2017) red-supergiant shock-cooling model

    A shallow embedding of [shock_cooling_curve/models/sw_rsg.py] (class
    [SW_RSG]) and properties of its evaluator [luminosity].

    The body of [luminosity] is embedded twice.

    - [Over.luminosity] leaves the arithmetic open: the Python scalar
      operations, the numpy operations on array entries and the reading of
      literals are the fields of a record.  What is proved of it for every
      arithmetic holds of the IEEE doubles of CPython and numpy.

    - [SW_RSG.luminosity] fixes the arithmetic to exact real numbers
      extended with the IEEE special values [+inf], [-inf] and [nan], which
      arise and propagate by the IEEE rules.  This arithmetic does not
      round, overflow or underflow, has no signed zero, and does not follow
      a scalar computation into the complex numbers; the scalar arguments
      are Python floats, as the docstring of [luminosity] says.  It is used
      for what does not depend on rounding: the shape of the result, the
      special values, and strict inequalities that hold with a margin for
      arguments inside the bounds of the fit.

    [luminosity_exact_reals] shows that the second body is the first one
    at the exact arithmetic.  The time argument [t] is a one-dimensional
    numpy array. *)

From Stdlib Require Import Reals QArith Qreals ZArith Lra Lia String List.
Import ListNotations.

Open Scope R_scope.

(** ** Floating-point values and the two arithmetics of the source *)

Module Num.

(** An entry of a numpy float array. *)
Inductive fval : Type :=
| Fin (x : R)
| PInf
| NInf
| NaN.

Inductive sign : Type := Neg | Zero | Pos.

Definition sgn (x : R) : sign :=
  match total_order_T x 0 with
  | inleft (left _) => Neg
  | inleft (right _) => Zero
  | inright _ => Pos
  end.

(** Exponents.  Every exponent of the source is a numeric literal; it is
    kept as a rational, so that its sign, integrality and parity, on which
    the rules of [pow] depend, are decided by computation. *)
Definition Qis_int (y : Q) : bool := (Z.pos (Qden (Qred y)) =? 1)%Z.
Definition Qto_Z (y : Q) : Z := Qnum (Qred y).
Definition Qis_zero (y : Q) : bool := Qeq_bool y 0.
Definition Qis_pos (y : Q) : bool := (0 <? Qnum y)%Z.
Definition Qis_odd (y : Q) : bool := Qis_int y && Z.odd (Qto_Z y).

(** *** Python scalar arithmetic

    A scalar expression either yields a float, raises, or leaves the floats
    (a negative float raised to a non-integer power is a [complex] in
    Python 3); the model does not follow a computation past that point.
    On the doubles a scalar power raises [OverflowError] when its result
    overflows; the exact arithmetic below has no overflow and never raises
    it. *)
Inductive pyexc : Type :=
| ZeroDivisionError
| OverflowError
| ValueError (msg : string).

Inductive outcome (A : Type) : Type :=
| Ret (a : A)
| Raise (e : pyexc)
| Complex.
Arguments Ret {A} a.
Arguments Raise {A} e.
Arguments Complex {A}.

Definition bind {A B : Type} (m : outcome A) (f : A -> outcome B) : outcome B :=
  match m with
  | Ret a => f a
  | Raise e => Raise e
  | Complex => Complex
  end.

(** [float / float]. *)
Definition py_div (x y : R) : outcome R :=
  match sgn y with
  | Zero => Raise ZeroDivisionError
  | _ => Ret (x / y)
  end.

(** [float ** float] (also [int ** float] and [float ** int]). *)
Definition py_pow (x : R) (y : Q) : outcome R :=
  if Qis_zero y then Ret 1
  else match sgn x with
       | Pos => Ret (Rpower x (Q2R y))
       | Zero => if Qis_pos y then Ret 0 else Raise ZeroDivisionError
       | Neg => if Qis_int y then Ret (powerRZ x (Qto_Z y)) else Complex
       end.

(** *** numpy elementwise arithmetic

    With numpy's default error state an invalid operation or a division by
    zero only warns, and yields [nan] or an infinity. *)
Definition flip (i : fval) : fval :=
  match i with
  | PInf => NInf
  | NInf => PInf
  | v => v
  end.

Definition np_neg (a : fval) : fval :=
  match a with
  | Fin x => Fin (- x)
  | i => flip i
  end.

Definition scale_inf (i : fval) (x : R) : fval :=
  match sgn x with
  | Pos => i
  | Neg => flip i
  | Zero => NaN
  end.

Definition np_mul (a b : fval) : fval :=
  match a, b with
  | NaN, _ | _, NaN => NaN
  | Fin x, Fin y => Fin (x * y)
  | Fin x, i | i, Fin x => scale_inf i x
  | PInf, PInf | NInf, NInf => PInf
  | PInf, NInf | NInf, PInf => NInf
  end.

Definition np_div (a b : fval) : fval :=
  match a, b with
  | NaN, _ | _, NaN => NaN
  | Fin x, Fin y =>
      match sgn y with
      | Zero => match sgn x with
                | Pos => PInf
                | Neg => NInf
                | Zero => NaN
                end
      | _ => Fin (x / y)
      end
  | Fin _, _ => Fin 0
  | i, Fin y => match sgn y with
                | Neg => flip i
                | _ => i
                end
  | _, _ => NaN
  end.

Definition np_pow (a : fval) (y : Q) : fval :=
  if Qis_zero y then Fin 1
  else match a with
       | NaN => NaN
       | Fin x =>
           match sgn x with
           | Pos => Fin (Rpower x (Q2R y))
           | Zero => if Qis_pos y then Fin 0 else PInf
           | Neg => if Qis_int y then Fin (powerRZ x (Qto_Z y)) else NaN
           end
       | PInf => if Qis_pos y then PInf else Fin 0
       | NInf => if Qis_pos y then (if Qis_odd y then NInf else PInf) else Fin 0
       end.

Definition np_exp (a : fval) : fval :=
  match a with
  | Fin x => Fin (exp x)
  | PInf => PInf
  | NInf => Fin 0
  | NaN => NaN
  end.

(** Two arrays of the same shape, entry by entry. *)
Fixpoint zip_with {A B C : Type} (f : A -> B -> C) (l : list A) (l' : list B) : list C :=
  match l, l' with
  | a :: l, b :: l' => f a b :: zip_with f l l'
  | _, _ => []
  end.

End Num.

Import Num.

Declare Scope py_scope.
Delimit Scope py_scope with py.
Notation "x <- m ;; k" := (bind m (fun x => k))
  (at level 61, m at next level, right associativity) : py_scope.
(** scalar with scalar *)
Infix "/." := py_div (at level 40, left associativity) : py_scope.
Infix "**." := py_pow (at level 30, right associativity) : py_scope.
(** scalar with array, array with scalar, array with array *)
Notation "x *: a" := (map (np_mul (Fin x)) a) (at level 40, left associativity) : py_scope.
Notation "a :* x" := (map (fun v => np_mul v (Fin x)) a) (at level 40, left associativity) : py_scope.
Notation "a :/ x" := (map (fun v => np_div v (Fin x)) a) (at level 40, left associativity) : py_scope.
Notation "a :** y" := (map (fun v => np_pow v y) a) (at level 30, right associativity) : py_scope.
Notation "a .* b" := (zip_with np_mul a b) (at level 40, left associativity) : py_scope.
Notation "a ./ b" := (zip_with np_div a b) (at level 40, left associativity) : py_scope.

Open Scope py_scope.

(** ** The class [SW_RSG] *)

Module SW_RSG.

(** [utils.rsun] and [utils.sigma] are constants of a module that is not
    part of the sources, and [self.mcore] is set by the constructor of the
    base class [Supernova], which is not either: the three are parameters
    of the model. *)

(** The attributes assigned by [__init__].  A Python [dict] keeps the order
    in which its keys were inserted. *)
Definition units : list (string * string) :=
  [("re", "R_sun"); ("me", "M_sun"); ("ve", "1e9 cm/s"); ("off", "days")]%string.

Definition scale (rsun : R) : outcome (list (string * R)) :=
  s <- 1e13 /. rsun ;;
  Ret [("re"%string, s); ("me"%string, 1); ("ve"%string, 1); ("off"%string, 1)].

Definition display_name : string := "Sapir & Waxman (2017) [n = 1.5]".

Definition initial : list Q := [2; 0.5; 2; 0.01]%Q.
Definition lower_bounds : list Q := [0.01; 0.01; 0.01; 0.001]%Q.
Definition upper_bounds : list Q := [10; 10; 10; 0.5]%Q.

(** The local variables of [luminosity] that the properties speak about,
    as they stand at the [return] statement. *)
Record locals : Type := Locals {
  var_L : list fval;
  var_T : list fval;
  var_R : list fval
}.

Section Evaluator.

Variable mcore : R.
Variable sigma : R.

(** The body of [luminosity], statement by statement.  Scalar
    sub-expressions are Python float operations, evaluated in the order of
    the source, and may raise; every operation that involves [t] is a numpy
    operation on the whole array.  [1 / 2] is the true division of
    Python 3, hence [0.5]. *)
Definition luminosity_locals (t : list fval) (re me ve : R) (kappa : option R)
  : outcome locals :=
  let kappa := match kappa with Some x => x | None => 0.34 end in
  let M := mcore + me in
  k <- kappa /. 0.34 ;;
  q <- me /. mcore ;;
  fp <- q **. 0.5 ;;
  p <- 10 **. 8.5 ;;
  vs <- (ve * 1e9) /. p ;;
  let lterm1 := ((vs *: (t :** 2)) :/ (fp * M * k)) :** (-0.086) in
  vs2 <- vs **. 2 ;;
  lterm2 <- (vs2 * re) /. k ;;
  let num := 1.67 *: t in
  iv <- 1 /. vs ;;
  sq <- (k * me * iv) **. (1 / 2) ;;
  let den := 19.5 * sq in
  let lterm3 := map np_exp (map np_neg ((num :/ den) :** 0.8)) in
  let L := (((1.88 * 1e42) *: lterm1) :* lterm2) .* lterm3 in
  let tterm1 := (((vs *: t) :** 2) :/ (fp * M * k)) :** 0.027 in
  rk <- re /. k ;;
  rk4 <- rk **. 0.25 ;;
  let tterm2 := rk4 *: (t :** (-0.5)) in
  let T := ((2.05 * 1e4) *: tterm1) .* tterm2 in
  let R := (L ./ (((4 * PI) *: (T :** 4)) :* sigma)) :** 0.5 in
  Ret (Locals L T R).

(** [return np.array([R]), np.array([T])]: two arrays of one row each. *)
Definition luminosity (t : list fval) (re me ve : R) (kappa : option R)
  : outcome (list (list fval) * list (list fval)) :=
  v <- luminosity_locals t re me ve kappa ;;
  Ret ([var_R v], [var_T v]).

End Evaluator.

End SW_RSG.

(** ** The evaluator over an arbitrary arithmetic

    The body of [luminosity] once more, with every arithmetic operation
    left open: the Python scalar operations [+], [*], [/] and [**], the
    numpy operations on the entries of an array, and the reading of a
    numeric literal.  What is proved of [Over.luminosity] for every
    [arithmetic] holds of the doubles of CPython and numpy, with their
    rounding, overflow and underflow, whichever exceptions their scalar
    operations raise. *)

Module Over.

Record arithmetic : Type := Arithmetic {
  num : Type;                          (* a Python scalar *)
  entry : Type;                        (* an entry of a numpy array *)
  lit : Q -> num;                      (* a numeric literal of the source *)
  pi : num;                            (* [np.pi] *)
  add : num -> num -> num;
  mul : num -> num -> num;
  div : num -> num -> outcome num;
  pow : num -> Q -> outcome num;
  broadcast : num -> entry;            (* a scalar operand of an array operation *)
  emul : entry -> entry -> entry;
  ediv : entry -> entry -> entry;
  epow : entry -> Q -> entry;
  eexp : entry -> entry;
  eneg : entry -> entry
}.

Record locals (A : arithmetic) : Type := Locals {
  var_L : list (entry A);
  var_T : list (entry A);
  var_R : list (entry A)
}.
Arguments Locals {A} _ _ _.
Arguments var_L {A} _.
Arguments var_T {A} _.
Arguments var_R {A} _.

Section Body.

Variable A : arithmetic.
Variables mcore sigma : num A.

Definition luminosity_locals (t : list (entry A)) (re me ve : num A)
  (kappa : option (num A)) : outcome (locals A) :=
  let kappa := match kappa with Some x => x | None => lit A 0.34 end in
  let M := add A mcore me in
  k <- div A kappa (lit A 0.34) ;;
  q <- div A me mcore ;;
  fp <- pow A q 0.5 ;;
  p <- pow A (lit A 10) 8.5 ;;
  vs <- div A (mul A ve (lit A 1e9)) p ;;
  let d := broadcast A (mul A (mul A fp M) k) in
  let lterm1 :=
    map (fun v => epow A v (-0.086))
      (map (fun v => ediv A v d)
         (map (emul A (broadcast A vs)) (map (fun v => epow A v 2) t))) in
  vs2 <- pow A vs 2 ;;
  lterm2 <- div A (mul A vs2 re) k ;;
  let num := map (emul A (broadcast A (lit A 1.67))) t in
  iv <- div A (lit A 1) vs ;;
  sq <- pow A (mul A (mul A k me) iv) (1 / 2) ;;
  let den := mul A (lit A 19.5) sq in
  let lterm3 :=
    map (eexp A)
      (map (eneg A)
         (map (fun v => epow A v 0.8) (map (fun v => ediv A v (broadcast A den)) num))) in
  let L :=
    zip_with (emul A)
      (map (fun v => emul A v (broadcast A lterm2))
         (map (emul A (broadcast A (mul A (lit A 1.88) (lit A 1e42)))) lterm1))
      lterm3 in
  let tterm1 :=
    map (fun v => epow A v 0.027)
      (map (fun v => ediv A v d)
         (map (fun v => epow A v 2) (map (emul A (broadcast A vs)) t))) in
  rk <- div A re k ;;
  rk4 <- pow A rk 0.25 ;;
  let tterm2 := map (emul A (broadcast A rk4)) (map (fun v => epow A v (-0.5)) t) in
  let T :=
    zip_with (emul A)
      (map (emul A (broadcast A (mul A (lit A 2.05) (lit A 1e4)))) tterm1)
      tterm2 in
  let R :=
    map (fun v => epow A v 0.5)
      (zip_with (ediv A) L
         (map (fun v => emul A v (broadcast A sigma))
            (map (emul A (broadcast A (mul A (lit A 4) (pi A))))
               (map (fun v => epow A v 4) T)))) in
  Ret (Locals L T R).

Definition luminosity (t : list (entry A)) (re me ve : num A)
  (kappa : option (num A)) : outcome (list (list (entry A)) * list (list (entry A))) :=
  v <- luminosity_locals t re me ve kappa ;;
  Ret ([var_R v], [var_T v]).

End Body.

End Over.

(** The arithmetic of the model above: exact reals with the IEEE special
    values. *)
Definition exact_reals : Over.arithmetic :=
  {| Over.num := R;
     Over.entry := fval;
     Over.lit := Q2R;
     Over.pi := PI;
     Over.add := Rplus;
     Over.mul := Rmult;
     Over.div := py_div;
     Over.pow := py_pow;
     Over.broadcast := Fin;
     Over.emul := np_mul;
     Over.ediv := np_div;
     Over.epow := np_pow;
     Over.eexp := np_exp;
     Over.eneg := np_neg |}.

(** ** Closed forms

    The scalars of the body over the real numbers, as the specification
    writes them: [M = mcore + me], [k = kappa / 0.34],
    [fp = sqrt (me / mcore)], [vs = ve * 1e9 / 10^8.5]; the luminosity as a
    real function of a positive time; and the entries of the three arrays
    as functions of an entry of [t]. *)

Module Spec.
Section Formulas.

Variables mcore re me ve kappa : R.

Definition M : R := mcore + me.
Definition k : R := kappa / 0.34.
Definition fp : R := sqrt (me / mcore).
Definition vs : R := ve * 1e9 / Rpower 10 8.5.

(** The luminosity at a time [t > 0]. *)
Definition L (t : R) : R :=
  1.88e42 * Rpower ((vs * t ^ 2) / (fp * M * k)) (-0.086) * (vs ^ 2 * re / k)
  * exp (- Rpower ((1.67 * t) / (19.5 * sqrt (k * me / vs))) 0.8).

(** The luminosity and the temperature of one entry of the time array,
    which may be zero, negative or special. *)
Definition L_entry (t : fval) : fval :=
  np_mul
    (np_mul
       (np_mul (Fin 1.88e42)
          (np_pow (np_div (np_mul (Fin vs) (np_pow t 2)) (Fin (fp * M * k))) (-0.086)))
       (Fin (vs ^ 2 * re / k)))
    (np_exp (np_neg
       (np_pow (np_div (np_mul (Fin 1.67) t) (Fin (19.5 * sqrt (k * me / vs)))) 0.8))).

Definition T_entry (t : fval) : fval :=
  np_mul
    (np_mul (Fin 2.05e4)
       (np_pow (np_div (np_pow (np_mul (Fin vs) t) 2) (Fin (fp * M * k))) 0.027))
    (np_mul (Fin (Rpower (re / k) 0.25)) (np_pow t (-0.5))).

End Formulas.

(** The radius of an entry, from its luminosity and its temperature. *)
Definition R_entry (sigma : R) (l t : fval) : fval :=
  np_pow (np_div l (np_mul (np_mul (Fin (4 * PI)) (np_pow t 4)) (Fin sigma))) 0.5.

End Spec.

(** ** Auxiliary definitions *)

(** Every exception that [m] can raise satisfies [P]. *)
Definition raises_within {A : Type} (P : pyexc -> Prop) (m : outcome A) : Prop :=
  forall e, m = Raise e -> P e.

(** In the exact arithmetic no scalar power overflows: every exception is
    a [ZeroDivisionError]. *)
Definition raises_only_zero_division {A : Type} (m : outcome A) : Prop :=
  raises_within (fun e => e = ZeroDivisionError) m.

(** The part of [L] that does not depend on [kappa], and the exponent of the
    suppression term at [k = 1]. *)
Definition L_amplitude (mcore re me ve t : R) : R :=
  1.88e42
  * Rpower (Spec.vs ve * t ^ 2 / (Spec.fp mcore me * Spec.M mcore me)) (-0.086)
  * (Spec.vs ve ^ 2 * re).

Definition L_rate (me ve t : R) : R :=
  Rpower (1.67 * t / (19.5 * sqrt (me / Spec.vs ve))) 0.8.

(** The exponent of the suppression term at opacity [kappa]. *)
Definition suppression (me ve kappa t : R) : R :=
  Rpower (1.67 * t / (19.5 * sqrt (Spec.k kappa * me / Spec.vs ve))) 0.8.

(** ** Arithmetic on the positive domain *)

Lemma sgn_pos (x : R) : 0 < x -> sgn x = Pos.
Proof.
  intros Hx. unfold sgn.
  destruct (total_order_T x 0) as [[Hlt | Heq] | Hgt]; try reflexivity; lra.
Qed.

Lemma sgn_zero : sgn 0 = Zero.
Proof.
  unfold sgn.
  destruct (total_order_T 0 0) as [[Hlt | Heq] | Hgt]; try reflexivity; lra.
Qed.

Lemma sgn_neg (x : R) : x < 0 -> sgn x = Neg.
Proof.
  intros Hx. unfold sgn.
  destruct (total_order_T x 0) as [[Hlt | Heq] | Hgt]; try reflexivity; lra.
Qed.

Lemma py_div_pos (x y : R) : 0 < y -> x /. y = Ret (x / y).
Proof. intros Hy. unfold py_div. now rewrite (sgn_pos y Hy). Qed.

Lemma py_pow_pos (x : R) (y : Q) :
  0 < x -> Qis_zero y = false -> x **. y = Ret (Rpower x (Q2R y)).
Proof. intros Hx Hy. unfold py_pow. now rewrite Hy, (sgn_pos x Hx). Qed.

Lemma np_mul_fin (x y : R) : np_mul (Fin x) (Fin y) = Fin (x * y).
Proof. reflexivity. Qed.

Lemma np_div_pos (x y : R) : 0 < y -> np_div (Fin x) (Fin y) = Fin (x / y).
Proof. intros Hy. unfold np_div. now rewrite (sgn_pos y Hy). Qed.

Lemma np_pow_pos (x : R) (y : Q) :
  0 < x -> Qis_zero y = false -> np_pow (Fin x) y = Fin (Rpower x (Q2R y)).
Proof. intros Hx Hy. unfold np_pow. now rewrite Hy, (sgn_pos x Hx). Qed.

Lemma Rpower_pos (x y : R) : 0 < Rpower x y.
Proof. unfold Rpower. apply exp_pos. Qed.

Lemma Rpower_half (x : R) : 0 < x -> Rpower x 0.5 = sqrt x.
Proof.
  intros Hx. rewrite <- (Rpower_sqrt x Hx). f_equal. lra.
Qed.

Lemma Rpower_two (x : R) : 0 < x -> Rpower x 2 = x ^ 2.
Proof.
  intros Hx. rewrite <- (Rpower_pow 2 x Hx). f_equal; simpl; lra.
Qed.

(** Positivity of a product, quotient, power, root or exponential. *)
Ltac pos :=
  repeat first
    [ assumption
    | lra
    | apply Rpower_pos
    | apply exp_pos
    | apply PI_RGT_0
    | apply sqrt_lt_R0
    | apply pow_lt
    | apply Rmult_lt_0_compat
    | apply Rdiv_lt_0_compat
    | apply Rinv_0_lt_compat ].

(** Array operations over one and the same time array. *)
Lemma zip_with_map {A B C D : Type} (f : B -> C -> D) (g : A -> B) (h : A -> C)
  (l : list A) :
  zip_with f (map g l) (map h l) = map (fun a => f (g a) (h a)) l.
Proof.
  induction l as [| a l IH]; simpl; [reflexivity | now rewrite IH].
Qed.

Lemma Q2R_two : Q2R 2 = 2.
Proof. unfold Q2R; simpl; lra. Qed.

Lemma Q2R_half : Q2R (1 / 2) = 0.5.
Proof. unfold Q2R; simpl; lra. Qed.

(** ** The exact arithmetic on strictly positive parameters *)

Section Bridge.

Variables mcore sigma re me ve kappa : R.
Hypothesis Hmcore : 0 < mcore.
Hypothesis Hre : 0 < re.
Hypothesis Hme : 0 < me.
Hypothesis Hve : 0 < ve.
Hypothesis Hkappa : 0 < kappa.

Lemma k_pos : 0 < Spec.k kappa.
Proof. unfold Spec.k. pos. Qed.

Lemma fp_pos : 0 < Spec.fp mcore me.
Proof. unfold Spec.fp. pos. Qed.

Lemma vs_pos : 0 < Spec.vs ve.
Proof. unfold Spec.vs. pos. Qed.

Lemma M_pos : 0 < Spec.M mcore me.
Proof. unfold Spec.M. lra. Qed.

Lemma luminosity_locals_entries (t : list fval) :
  SW_RSG.luminosity_locals mcore sigma t re me ve (Some kappa) =
  Ret (SW_RSG.Locals
         (map (Spec.L_entry mcore re me ve kappa) t)
         (map (Spec.T_entry mcore re me ve kappa) t)
         (map (fun x => Spec.R_entry sigma (Spec.L_entry mcore re me ve kappa x)
                          (Spec.T_entry mcore re me ve kappa x)) t)).
Proof.
  pose proof k_pos as Hk. pose proof fp_pos as Hfp.
  pose proof vs_pos as Hvs. pose proof M_pos as HM.
  unfold SW_RSG.luminosity_locals.
  rewrite (py_div_pos kappa 0.34) by lra. cbn [bind].
  rewrite (py_div_pos me mcore) by lra. cbn [bind].
  rewrite py_pow_pos by (pos || reflexivity). cbn [bind].
  rewrite (py_pow_pos 10) by (lra || reflexivity). cbn [bind].
  rewrite py_div_pos by pos. cbn [bind].
  rewrite py_pow_pos by (pos || reflexivity). cbn [bind].
  rewrite py_div_pos by pos. cbn [bind].
  rewrite py_div_pos by pos. cbn [bind].
  rewrite py_pow_pos by (pos || reflexivity). cbn [bind].
  rewrite py_div_pos by pos. cbn [bind].
  rewrite py_pow_pos by (pos || reflexivity). cbn [bind].
  rewrite !map_map, !zip_with_map, !map_map, !zip_with_map, !map_map.
  replace (1.88 * 1e42) with 1.88e42 by lra.
  replace (2.05 * 1e4) with 2.05e4 by lra.
  rewrite (Rpower_half (me / mcore)) by pos.
  rewrite Q2R_two, Q2R_half, Rpower_two, Rpower_half by pos.
  replace (kappa / 0.34 * me * (1 / (ve * 1e9 / Rpower 10 8.5)))
    with (Spec.k kappa * me / Spec.vs ve)
    by (unfold Spec.k, Spec.vs; pose proof (Rpower_pos 10 8.5); field; repeat split; lra).
  reflexivity.
Qed.


End Bridge.

(** ** Properties of the evaluator *)

(** C8.  Passing [kappa = 0.34] and omitting [kappa] give the same result,
    whatever the other arguments. *)
Theorem luminosity_default_kappa (mcore sigma : R) (t : list fval) (re me ve : R) :
  SW_RSG.luminosity mcore sigma t re me ve (Some 0.34) =
  SW_RSG.luminosity mcore sigma t re me ve None.
Proof. reflexivity. Qed.

(** ** Outside the domain: no validation *)


Lemma rozd_div (x y : R) : raises_only_zero_division (x /. y).
Proof.
  intros e He. unfold py_div in He. destruct (sgn y); congruence.
Qed.

Lemma rozd_pow (x : R) (y : Q) : raises_only_zero_division (x **. y).
Proof.
  intros e He. unfold py_pow in He.
  destruct (Qis_zero y), (sgn x), (Qis_int y), (Qis_pos y); congruence.
Qed.

(** The error path of the scalar arithmetic is not dead: a core mass of
    zero makes [me / self.mcore] raise. *)
Lemma luminosity_mcore_zero_raises (sigma : R) (t : list fval) (re me ve : R)
  (kappa : option R) :
  SW_RSG.luminosity 0 sigma t re me ve kappa = Raise ZeroDivisionError.
Proof.
  unfold SW_RSG.luminosity, SW_RSG.luminosity_locals.
  rewrite py_div_pos by lra. cbn [bind].
  unfold py_div at 1. rewrite sgn_zero. reflexivity.
Qed.

(** With an envelope of mass zero and everything else positive, both
    divisions by [fp * M * k] and the division by [den] are numpy divisions
    of a positive entry by zero. *)
Lemma sgn_zero_eq (x : R) : x = 0 -> sgn x = Zero.
Proof. intros ->. apply sgn_zero. Qed.

Lemma py_pow_zero (x : R) (y : Q) :
  x = 0 -> Qis_zero y = false -> Qis_pos y = true -> x **. y = Ret 0.
Proof. intros Hx Hz Hp. unfold py_pow. now rewrite Hz, (sgn_zero_eq x Hx), Hp. Qed.

Lemma np_div_pos_zero (x y : R) :
  0 < x -> y = 0 -> np_div (Fin x) (Fin y) = PInf.
Proof.
  intros Hx Hy. unfold np_div. now rewrite (sgn_zero_eq y Hy), (sgn_pos x Hx).
Qed.

Lemma np_mul_pos_inf (x : R) : 0 < x -> np_mul (Fin x) PInf = PInf.
Proof. intros Hx. cbn [np_mul]. unfold scale_inf. now rewrite (sgn_pos x Hx). Qed.

Lemma np_mul_inf_pos (x : R) : 0 < x -> np_mul PInf (Fin x) = PInf.
Proof. intros Hx. cbn [np_mul]. unfold scale_inf. now rewrite (sgn_pos x Hx). Qed.

Lemma np_pow_inf_pos (y : Q) :
  Qis_zero y = false -> Qis_pos y = true -> np_pow PInf y = PInf.
Proof. intros Hz Hp. unfold np_pow. now rewrite Hz, Hp. Qed.

Lemma np_pow_inf_neg (y : Q) :
  Qis_zero y = false -> Qis_pos y = false -> np_pow PInf y = Fin 0.
Proof. intros Hz Hp. unfold np_pow. now rewrite Hz, Hp. Qed.

Lemma np_pow_zero (x : R) (y : Q) :
  x = 0 -> Qis_zero y = false -> Qis_pos y = true -> np_pow (Fin x) y = Fin 0.
Proof. intros Hx Hz Hp. unfold np_pow. now rewrite Hz, (sgn_zero_eq x Hx), Hp. Qed.

Lemma luminosity_me_zero (mcore sigma re ve kappa : R) (ts : list R) :
  0 < mcore -> 0 < sigma -> 0 < re -> 0 < ve -> 0 < kappa ->
  Forall (fun t => 0 < t) ts ->
  SW_RSG.luminosity mcore sigma (map Fin ts) re 0 ve (Some kappa) =
  Ret ([map (fun _ => Fin 0) ts], [map (fun _ => PInf) ts]).
Proof.
  intros Hmcore Hsigma Hre Hve Hkappa Hts.
  pose proof (k_pos kappa Hkappa) as Hk. pose proof (vs_pos ve Hve) as Hvs.
  unfold Spec.k, Spec.vs in Hk, Hvs.
  unfold SW_RSG.luminosity, SW_RSG.luminosity_locals.
  rewrite (py_div_pos kappa 0.34) by lra. cbn [bind].
  rewrite (py_div_pos 0 mcore) by lra. cbn [bind].
  rewrite (py_pow_zero (0 / mcore)) by (reflexivity || (unfold Rdiv; ring)). cbn [bind].
  rewrite (py_pow_pos 10) by (lra || reflexivity). cbn [bind].
  rewrite py_div_pos by pos. cbn [bind].
  rewrite py_pow_pos by (pos || reflexivity). cbn [bind].
  rewrite py_div_pos by pos. cbn [bind].
  rewrite py_div_pos by pos. cbn [bind].
  rewrite py_pow_zero by (reflexivity || ring). cbn [bind].
  rewrite py_div_pos by pos. cbn [bind].
  rewrite py_pow_pos by (pos || reflexivity). cbn [bind SW_RSG.var_R SW_RSG.var_T].
  repeat rewrite ?map_map, ?zip_with_map.
  rewrite Forall_forall in Hts.
  f_equal. f_equal; (f_equal; apply map_ext_in; intros t Ht; apply Hts in Ht).
  - rewrite !np_mul_fin.
    rewrite (np_pow_pos t 2), (np_pow_pos t (-0.5)) by (pos || reflexivity).
    rewrite (np_pow_pos (_ * t) 2) by (pos || reflexivity).
    rewrite !np_mul_fin.
    rewrite !np_div_pos_zero by (pos || ring).
    rewrite (np_pow_inf_neg (-0.086)), (np_pow_inf_pos 0.8), (np_pow_inf_pos 0.027)
      by reflexivity.
    cbn [np_neg flip np_exp]. rewrite !np_mul_fin.
    rewrite np_mul_pos_inf by lra.
    rewrite np_mul_inf_pos by pos.
    rewrite (np_pow_inf_pos 4) by reflexivity.
    rewrite np_mul_pos_inf by pos.
    rewrite np_mul_inf_pos by pos.
    cbn [np_div].
    apply np_pow_zero; reflexivity.
  - rewrite !np_mul_fin.
    rewrite (np_pow_pos t (-0.5)) by (pos || reflexivity).
    rewrite (np_pow_pos (_ * t) 2) by (pos || reflexivity).
    rewrite !np_mul_fin.
    rewrite !np_div_pos_zero by (pos || ring).
    rewrite (np_pow_inf_pos 0.027) by reflexivity.
    rewrite np_mul_pos_inf by lra.
    apply np_mul_inf_pos. pos.
Qed.

(** C4 as stated fails: the rejection scenario [me = 0] of the
    specification returns arrays, one of them holding an infinity. *)
Lemma luminosity_me_zero_returns_inf :
  SW_RSG.luminosity 1 5.67e-5 [Fin 1] 2 0 2 (Some 0.34) = Ret ([[Fin 0]], [[PInf]]) /\
  forall e, SW_RSG.luminosity 1 5.67e-5 [Fin 1] 2 0 2 (Some 0.34) <> Raise e.
Proof.
  assert (SW_RSG.luminosity 1 5.67e-5 [Fin 1] 2 0 2 (Some 0.34)
          = Ret ([[Fin 0]], [[PInf]])) as H.
  { apply (luminosity_me_zero 1 5.67e-5 2 2 0.34 [1]); try lra.
    repeat constructor; lra. }
  split; [exact H |]. intros e. rewrite H. discriminate.
Qed.

(** ** The two bodies agree

    [SW_RSG.luminosity] is [Over.luminosity] at the exact arithmetic. *)

Lemma Q2R_lit_1e9 : Q2R 1e9 = 1e9.
Proof. rewrite Q2R_mult. unfold Q2R. cbn [Qnum Qden]. lra. Qed.

Lemma Q2R_lit_1e42 : Q2R 1e42 = 1e42.
Proof. rewrite Q2R_mult. unfold Q2R. cbn [Qnum Qden]. lra. Qed.

Lemma Q2R_lit_1e4 : Q2R 1e4 = 1e4.
Proof. rewrite Q2R_mult. unfold Q2R. cbn [Qnum Qden]. lra. Qed.

Lemma Q2R_lit_int (z : Z) : Q2R (inject_Z z) = IZR z.
Proof. unfold Q2R, inject_Z. cbn [Qnum Qden]. lra. Qed.

Lemma luminosity_exact_reals (mcore sigma : R) (t : list fval) (re me ve : R)
  (kappa : option R) :
  Over.luminosity exact_reals mcore sigma t re me ve kappa =
  SW_RSG.luminosity mcore sigma t re me ve kappa.
Proof.
  unfold Over.luminosity, Over.luminosity_locals, SW_RSG.luminosity,
    SW_RSG.luminosity_locals.
  cbn [exact_reals Over.num Over.entry Over.lit Over.pi Over.add Over.mul Over.div
       Over.pow Over.broadcast Over.emul Over.ediv Over.epow Over.eexp Over.eneg].
  rewrite Q2R_lit_1e9, Q2R_lit_1e42, Q2R_lit_1e4.
  change 10%Q with (inject_Z 10). change 1%Q with (inject_Z 1). change 4%Q with (inject_Z 4).
  rewrite !Q2R_lit_int.
  repeat match goal with
  | |- context [bind (py_div ?a ?b) _] =>
      destruct (py_div a b); cbn [bind]; try reflexivity
  | |- context [bind (py_pow ?a ?b) _] =>
      destruct (py_pow a b); cbn [bind]; try reflexivity
  end.
Qed.

(** ** No validation, whatever the arithmetic *)

Lemma within_ret {A : Type} (P : pyexc -> Prop) (a : A) : raises_within P (Ret a).
Proof. intros e He. discriminate. Qed.

Lemma within_bind {A B : Type} (P : pyexc -> Prop) (m : outcome A) (f : A -> outcome B) :
  raises_within P m ->
  (forall a, raises_within P (f a)) ->
  raises_within P (bind m f).
Proof.
  intros Hm Hf e He. destruct m as [a | e' |]; cbn [bind] in He.
  - now apply (Hf a).
  - apply Hm. congruence.
  - discriminate.
Qed.

(** C4 (as amended).  [luminosity] validates nothing and raises nothing of
    its own: whatever the arguments, and whatever the arithmetic, an
    exception that a call raises is one that a scalar division or a scalar
    power of its body raises. *)
Theorem luminosity_raises_only_arithmetic_errors
  (A : Over.arithmetic) (P : pyexc -> Prop)
  (mcore sigma : Over.num A) (t : list (Over.entry A)) (re me ve : Over.num A)
  (kappa : option (Over.num A)) :
  (forall x y, raises_within P (Over.div A x y)) ->
  (forall x y, raises_within P (Over.pow A x y)) ->
  raises_within P (Over.luminosity A mcore sigma t re me ve kappa).
Proof.
  intros Hdiv Hpow.
  unfold Over.luminosity, Over.luminosity_locals.
  repeat first
    [ apply within_ret
    | apply within_bind; [first [apply Hdiv | apply Hpow] | intros ?]
    | apply within_bind; [| intros ?] ].
Qed.

Lemma luminosity_raises_only_arithmetic_errors_witness :
  (forall x y, raises_within (fun e => e = ZeroDivisionError) (Over.div exact_reals x y)) /\
  (forall x y, raises_within (fun e => e = ZeroDivisionError) (Over.pow exact_reals x y)) /\
  raises_within (fun e => e = ZeroDivisionError)
    (Over.luminosity exact_reals 1 5.67e-5 [Fin 1] 2 0 2 (Some 0.34)).
Proof.
  assert (forall x y, raises_within (fun e => e = ZeroDivisionError)
                        (Over.div exact_reals x y)) as Hdiv by exact rozd_div.
  assert (forall x y, raises_within (fun e => e = ZeroDivisionError)
                        (Over.pow exact_reals x y)) as Hpow by exact rozd_pow.
  split; [exact Hdiv |]. split; [exact Hpow |].
  exact (luminosity_raises_only_arithmetic_errors exact_reals _ _ _ _ _ _ _ _ Hdiv Hpow).
Defined.

(** ** The luminosity as a function of the opacity *)



















(** ** The luminosity and the opacity, inside the bounds of the fit *)



(** ** The bounds of the fit *)

(** C7.  [initial], [lower_bounds] and [upper_bounds] have four entries
    each, one per parameter in the order [re], [me], [ve], [off] of the
    keys of [units], and at every index the initial value lies between the
    lower and the upper bound. *)
Theorem bounds_spec :
  length SW_RSG.initial = 4%nat /\
  length SW_RSG.lower_bounds = 4%nat /\
  length SW_RSG.upper_bounds = 4%nat /\
  map fst SW_RSG.units = ["re"; "me"; "ve"; "off"]%string /\
  forall i, (i < 4)%nat ->
    (nth i SW_RSG.lower_bounds 0 <= nth i SW_RSG.initial 0)%Q /\
    (nth i SW_RSG.initial 0 <= nth i SW_RSG.upper_bounds 0)%Q.
Proof.
  do 4 (split; [reflexivity |]).
  intros i Hi.
  do 4 (destruct i as [| i]; [split; unfold Qle; simpl; lia |]).
  lia.
Qed.

(** ** Further properties of the evaluator *)

(** *** The time array is mapped entry by entry

    No scalar of [luminosity] depends on [t]: for fixed scalar arguments
    the call raises the same exception for every [t], or leaves the floats
    for every [t], or returns for every [t] the two rows obtained by
    applying one fixed function to each entry. *)
Lemma luminosity_entrywise (mcore sigma re me ve : R) (kappa : option R) :
  (exists fR fT : fval -> fval, forall t,
      SW_RSG.luminosity mcore sigma t re me ve kappa = Ret ([map fR t], [map fT t])) \/
  (exists e, forall t, SW_RSG.luminosity mcore sigma t re me ve kappa = Raise e) \/
  (forall t, SW_RSG.luminosity mcore sigma t re me ve kappa = Complex).
Proof.
  unfold SW_RSG.luminosity, SW_RSG.luminosity_locals.
  repeat match goal with
  | |- context [bind (py_div ?a ?b) _] =>
      destruct (py_div a b) as [? | ? |]; cbn [bind];
      [ | right; left; eexists; intros; reflexivity | right; right; intros; reflexivity ]
  | |- context [bind (py_pow ?a ?b) _] =>
      destruct (py_pow a b) as [? | ? |]; cbn [bind];
      [ | right; left; eexists; intros; reflexivity | right; right; intros; reflexivity ]
  end.
  left. do 2 eexists. intros t. cbn [SW_RSG.var_R SW_RSG.var_T].
  repeat rewrite ?map_map, ?zip_with_map.
  reflexivity.
Qed.

(** X1.  Whenever [luminosity] returns, each of the two returned arrays
    has exactly one row, and that row has one entry per entry of [t]. *)
Theorem luminosity_shape (mcore sigma : R) (t : list fval) (re me ve : R)
  (kappa : option R) (Rrows Trows : list (list fval)) :
  SW_RSG.luminosity mcore sigma t re me ve kappa = Ret (Rrows, Trows) ->
  exists Rs Ts,
    Rrows = [Rs] /\ Trows = [Ts] /\ length Rs = length t /\ length Ts = length t.
Proof.
  intros H.
  destruct (luminosity_entrywise mcore sigma re me ve kappa)
    as [(fR & fT & Hf) | [(e & He) | Hc]].
  - rewrite Hf in H. injection H as <- <-.
    exists (map fR t), (map fT t). rewrite !length_map. repeat split.
  - rewrite He in H. discriminate.
  - rewrite Hc in H. discriminate.
Qed.

Lemma luminosity_shape_witness :
  exists Rs Ts,
    [[Fin 0; Fin 0]] = [Rs] /\ [[PInf; PInf]] = [Ts] /\
    length Rs = length [Fin 1; Fin 2.5] /\ length Ts = length [Fin 1; Fin 2.5].
Proof.
  apply (luminosity_shape 1 5.67e-5 [Fin 1; Fin 2.5] 2 0 2 (Some 0.34)).
  apply (luminosity_me_zero 1 5.67e-5 2 2 0.34 [1; 2.5]); try lra.
  repeat constructor; lra.
Defined.

(** X2.  Evaluating a concatenation of two time arrays gives the
    concatenation of the two evaluations, row by row: no entry of the
    result depends on another entry of [t]. *)
Theorem luminosity_app (mcore sigma : R) (t1 t2 : list fval) (re me ve : R)
  (kappa : option R) (R1 T1 R2 T2 : list fval) :
  SW_RSG.luminosity mcore sigma t1 re me ve kappa = Ret ([R1], [T1]) ->
  SW_RSG.luminosity mcore sigma t2 re me ve kappa = Ret ([R2], [T2]) ->
  SW_RSG.luminosity mcore sigma (t1 ++ t2) re me ve kappa =
  Ret ([R1 ++ R2], [T1 ++ T2]).
Proof.
  intros H1 H2.
  destruct (luminosity_entrywise mcore sigma re me ve kappa)
    as [(fR & fT & Hf) | [(e & He) | Hc]].
  - rewrite Hf in H1, H2. injection H1 as <- <-. injection H2 as <- <-.
    now rewrite Hf, !map_app.
  - rewrite He in H1. discriminate.
  - rewrite Hc in H1. discriminate.
Qed.

Lemma luminosity_app_witness :
  SW_RSG.luminosity 1 5.67e-5 ([Fin 1] ++ [Fin 2.5; Fin 4]) 2 0 2 (Some 0.34) =
  Ret ([[Fin 0] ++ [Fin 0; Fin 0]], [[PInf] ++ [PInf; PInf]]).
Proof.
  apply luminosity_app.
  - apply (luminosity_me_zero 1 5.67e-5 2 2 0.34 [1]); try lra.
    repeat constructor; lra.
  - apply (luminosity_me_zero 1 5.67e-5 2 2 0.34 [2.5; 4]); try lra.
    repeat constructor; lra.
Defined.

(** X3.  Whether [luminosity] raises, and what, is decided by the scalar
    arguments alone: a call that raises for one time array raises the same
    exception for every time array. *)
Theorem luminosity_raise_independent_of_t (mcore sigma : R) (t t' : list fval)
  (re me ve : R) (kappa : option R) (e : pyexc) :
  SW_RSG.luminosity mcore sigma t re me ve kappa = Raise e ->
  SW_RSG.luminosity mcore sigma t' re me ve kappa = Raise e.
Proof.
  intros H.
  destruct (luminosity_entrywise mcore sigma re me ve kappa)
    as [(fR & fT & Hf) | [(e' & He) | Hc]].
  - rewrite Hf in H. discriminate.
  - rewrite He in *. exact H.
  - rewrite Hc in H. discriminate.
Qed.

Lemma luminosity_raise_independent_of_t_witness :
  SW_RSG.luminosity 0 5.67e-5 [Fin 1; NaN] 2 0.5 2 None = Raise ZeroDivisionError.
Proof.
  apply (luminosity_raise_independent_of_t 0 5.67e-5 []).
  apply luminosity_mcore_zero_raises.
Defined.

(** *** Times outside the domain *)

Lemma np_mul_nan_r (a : fval) : np_mul a NaN = NaN.
Proof. now destruct a. Qed.

Lemma np_div_nan_r (a : fval) : np_div a NaN = NaN.
Proof. now destruct a. Qed.

Lemma scale_inf_zero (i : fval) (x : R) : x = 0 -> scale_inf i x = NaN.
Proof. intros Hx. unfold scale_inf. now rewrite (sgn_zero_eq x Hx). Qed.

Lemma R_entry_nan (sigma : R) (l : fval) : Spec.R_entry sigma l NaN = NaN.
Proof.
  unfold Spec.R_entry.
  change (np_pow NaN 4) with NaN. cbn [np_mul].
  rewrite np_div_nan_r. reflexivity.
Qed.

Lemma T_entry_nan (mcore re me ve kappa : R) (v : fval) :
  0 < mcore -> 0 < re -> 0 < me -> 0 < ve -> 0 < kappa ->
  (forall x, v = Fin x -> x <= 0) ->
  Spec.T_entry mcore re me ve kappa v = NaN.
Proof.
  intros Hmcore Hre Hme Hve Hkappa Hv.
  pose proof (k_pos kappa Hkappa) as Hk. pose proof (vs_pos ve Hve) as Hvs.
  pose proof (fp_pos mcore me Hmcore Hme) as Hfp.
  pose proof (M_pos mcore me Hmcore Hme) as HM.
  unfold Spec.T_entry.
  destruct v as [x | | |].
  - destruct (Rle_lt_or_eq_dec x 0 (Hv x eq_refl)) as [Hneg | ->].
    + (* a negative time: [t ** (-0.5)] is invalid *)
      replace (np_pow (Fin x) (-0.5)) with NaN
        by (unfold np_pow; now rewrite (sgn_neg x Hneg)).
      now rewrite !np_mul_nan_r.
    + (* time zero: [0 * inf] *)
      rewrite np_mul_fin.
      rewrite (np_pow_zero (Spec.vs ve * 0) 2) by (reflexivity || ring).
      replace (np_div (Fin 0) (Fin (Spec.fp mcore me * Spec.M mcore me * Spec.k kappa)))
        with (Fin (0 / (Spec.fp mcore me * Spec.M mcore me * Spec.k kappa)))
        by (symmetry; apply np_div_pos; pos).
      rewrite (np_pow_zero _ 0.027) by (reflexivity || (unfold Rdiv; ring)).
      rewrite np_mul_fin.
      replace (np_pow (Fin 0) (-0.5)) with PInf
        by (unfold np_pow; now rewrite sgn_zero).
      rewrite np_mul_pos_inf by pos.
      cbn [np_mul]. apply scale_inf_zero. ring.
  - (* [+inf]: [inf * 0] *)
    rewrite np_mul_pos_inf by assumption.
    rewrite (np_pow_inf_pos 2) by reflexivity.
    replace (np_div PInf (Fin (Spec.fp mcore me * Spec.M mcore me * Spec.k kappa)))
      with PInf by (unfold np_div; rewrite sgn_pos by pos; reflexivity).
    rewrite (np_pow_inf_pos 0.027) by reflexivity.
    rewrite np_mul_pos_inf by lra.
    rewrite (np_pow_inf_neg (-0.5)) by reflexivity.
    rewrite np_mul_fin. cbn [np_mul]. apply scale_inf_zero. ring.
  - (* [-inf]: [inf * 0] *)
    replace (np_mul (Fin (Spec.vs ve)) NInf) with NInf
      by (cbn [np_mul]; unfold scale_inf; now rewrite sgn_pos by assumption).
    change (np_pow NInf 2) with PInf.
    replace (np_div PInf (Fin (Spec.fp mcore me * Spec.M mcore me * Spec.k kappa)))
      with PInf by (unfold np_div; rewrite sgn_pos by pos; reflexivity).
    rewrite (np_pow_inf_pos 0.027) by reflexivity.
    rewrite np_mul_pos_inf by lra.
    change (np_pow NInf (-0.5)) with (Fin 0).
    rewrite np_mul_fin. cbn [np_mul]. apply scale_inf_zero. ring.
  - reflexivity.
Qed.

(** X4.  For strictly positive parameters, whenever the call returns, an
    entry of [t] that is not a strictly positive finite number (zero,
    negative, infinite or [nan]) has [nan] at its place in both returned
    arrays. *)
Theorem luminosity_nan_outside_positive_times
  (mcore sigma re me ve kappa : R) (t Rs Ts : list fval) :
  0 < mcore -> 0 < re -> 0 < me -> 0 < ve -> 0 < kappa ->
  SW_RSG.luminosity mcore sigma t re me ve (Some kappa) = Ret ([Rs], [Ts]) ->
  forall i v, nth_error t i = Some v ->
    (forall x, v = Fin x -> x <= 0) ->
    nth_error Rs i = Some NaN /\ nth_error Ts i = Some NaN.
Proof.
  intros Hmcore Hre Hme Hve Hkappa Hret i v Hi Hv.
  unfold SW_RSG.luminosity in Hret.
  rewrite luminosity_locals_entries in Hret by assumption.
  cbn [bind SW_RSG.var_R SW_RSG.var_T] in Hret.
  injection Hret as <- <-.
  rewrite !nth_error_map, Hi. cbn [option_map].
  rewrite T_entry_nan by assumption.
  now rewrite R_entry_nan.
Qed.

Lemma luminosity_nan_outside_positive_times_witness :
  SW_RSG.luminosity 1 5.67e-5 [Fin 0; Fin 1; Fin (-2); PInf] 2 0.5 2 (Some 0.34) =
    Ret ([map (fun x => Spec.R_entry 5.67e-5 (Spec.L_entry 1 2 0.5 2 0.34 x)
                          (Spec.T_entry 1 2 0.5 2 0.34 x))
            [Fin 0; Fin 1; Fin (-2); PInf]],
         [map (Spec.T_entry 1 2 0.5 2 0.34) [Fin 0; Fin 1; Fin (-2); PInf]]) /\
  forall i v, nth_error [Fin 0; Fin 1; Fin (-2); PInf] i = Some v ->
    (forall x, v = Fin x -> x <= 0) ->
    nth_error (map (fun x => Spec.R_entry 5.67e-5 (Spec.L_entry 1 2 0.5 2 0.34 x)
                               (Spec.T_entry 1 2 0.5 2 0.34 x))
                 [Fin 0; Fin 1; Fin (-2); PInf]) i = Some NaN /\
    nth_error (map (Spec.T_entry 1 2 0.5 2 0.34) [Fin 0; Fin 1; Fin (-2); PInf]) i
      = Some NaN.
Proof.
  assert (SW_RSG.luminosity 1 5.67e-5 [Fin 0; Fin 1; Fin (-2); PInf] 2 0.5 2 (Some 0.34) =
    Ret ([map (fun x => Spec.R_entry 5.67e-5 (Spec.L_entry 1 2 0.5 2 0.34 x)
                          (Spec.T_entry 1 2 0.5 2 0.34 x))
            [Fin 0; Fin 1; Fin (-2); PInf]],
         [map (Spec.T_entry 1 2 0.5 2 0.34) [Fin 0; Fin 1; Fin (-2); PInf]])) as H.
  { unfold SW_RSG.luminosity. rewrite luminosity_locals_entries by lra. reflexivity. }
  split; [exact H |].
  apply (luminosity_nan_outside_positive_times 1 5.67e-5 2 0.5 2 0.34
           [Fin 0; Fin 1; Fin (-2); PInf]); (lra || exact H).
Defined.
